(** * Recruitment tracker: importer, query, marking, export and schema healing

    A shallow embedding of [app.py].  The spreadsheet importer
    ([load_data_to_db]), the filter query ([api_companies]), the marking
    endpoint ([api_mark]), the exporter ([api_export_suitable]) and the
    schema manager ([init_db]) are written as functions over an explicit
    store; what the program obtains from Python, pandas and sqlite3 is
    gathered in the [Platform] interface. *)

From Stdlib Require Import ZArith List Ascii String DecimalString Sorting.Sorted.
From stdpp Require Import base tactics option list sorting strings gmap.

Local Open Scope string_scope.
Local Open Scope Z_scope.

(** ** Values *)

(** A value held in a column of TEXT affinity: SQL NULL or text.  Numbers
    bound to such a column are stored in text form, so no other storage
    class occurs for the spreadsheet values the importer binds. *)
Inductive sqltext :=
| Null
| Text (s : string).

#[global] Instance sqltext_eq_dec : EqDecision sqltext.
Proof. solve_decision. Defined.

(** What the program takes from its libraries. *)
Class Platform := {
  (** the values pandas hands out for spreadsheet cells *)
  cell : Type;
  (** [str.strip()] *)
  str_strip : string → string;
  (** [str.lower()] *)
  str_lower : string → string;
  (** [str(v)] of a cell *)
  cell_str : cell → string;
  (** [str(s)] of the Series that [row.get] returns for a duplicated label *)
  series_str : list cell → string;
  (** sqlite3 binding of a cell as a parameter stored in a TEXT column;
      [None] when sqlite3 rejects the value's type *)
  sql_bind : cell → option sqltext;
  (** NUMERIC affinity applied to a text operand compared with [id] *)
  sql_numeric : string → option Z;
}.

(** [str(n)] of a non-negative integer. *)
Definition str_of_nat (n : nat) : string :=
  NilEmpty.string_of_uint (Nat.to_uint n).

(** ** The importer: column reconciliation *)

Definition column_mapping : list (string * string) :=
  [ ("序号", "serial_number");
    ("公司名称", "company_name");
    ("批次", "batch");
    ("企业性质", "company_type");
    ("行业大类", "industry");
    ("招聘对象", "recruitment_target");
    ("招聘岗位", "positions");
    ("网申状态", "application_status");
    ("工作地点", "location");
    ("更新时间", "update_time");
    ("截止时间", "deadline");
    ("官方公告", "official_announcement");
    ("投递方式", "application_method");
    ("内推码/备注", "referral_code") ].

(** A column label of the frame read from the spreadsheet: a string, or a
    value of another type (a numeric header), on which [.strip()] raises
    an [AttributeError] carrying the given text. *)
Inductive label :=
| LStr (s : string)
| LOther (err : string).

#[global] Instance label_eq_dec : EqDecision label.
Proof. solve_decision. Defined.

(** The fourteen text columns, in the order of the INSERT statement. *)
Record fields (A : Type) := Fields {
  serial_number : A;
  company_name : A;
  batch : A;
  company_type : A;
  industry : A;
  recruitment_target : A;
  positions : A;
  application_status : A;
  location : A;
  update_time : A;
  deadline : A;
  official_announcement : A;
  application_method : A;
  referral_code : A;
}.
Arguments Fields {A}.
Arguments serial_number {A}.
Arguments company_name {A}.
Arguments batch {A}.
Arguments company_type {A}.
Arguments industry {A}.
Arguments recruitment_target {A}.
Arguments positions {A}.
Arguments application_status {A}.
Arguments location {A}.
Arguments update_time {A}.
Arguments deadline {A}.
Arguments official_announcement {A}.
Arguments application_method {A}.
Arguments referral_code {A}.

(** The field of a tuple by the name of its column. *)
Definition field_get {A} (name : string) (t : fields A) : option A :=
  if decide (name = "serial_number") then Some (serial_number t)
  else if decide (name = "company_name") then Some (company_name t)
  else if decide (name = "batch") then Some (batch t)
  else if decide (name = "company_type") then Some (company_type t)
  else if decide (name = "industry") then Some (industry t)
  else if decide (name = "recruitment_target") then Some (recruitment_target t)
  else if decide (name = "positions") then Some (positions t)
  else if decide (name = "application_status") then Some (application_status t)
  else if decide (name = "location") then Some (location t)
  else if decide (name = "update_time") then Some (update_time t)
  else if decide (name = "deadline") then Some (deadline t)
  else if decide (name = "official_announcement")
       then Some (official_announcement t)
  else if decide (name = "application_method") then Some (application_method t)
  else if decide (name = "referral_code") then Some (referral_code t)
  else None.

(** ** The store *)

(** A row of table [companies] under the schema that [init_db] creates. *)
Record company := Company {
  company_id : Z;
  values : fields sqltext;
  is_suitable : Z;
  created_at : string;
}.

(** The table together with its AUTOINCREMENT counter, which survives
    [DELETE FROM companies]. *)
Record store := Store {
  companies : list company;
  sqlite_sequence : Z;
}.

Definition empty_store : store := Store [] 0.

Definition max_id (l : list company) : Z :=
  foldr (λ c m, Z.max (company_id c) m) 0 l.

(** The id an AUTOINCREMENT key gives to the next row: one more than the
    largest id the table holds or has ever held. *)
Definition next_id (db : store) : Z :=
  Z.max (sqlite_sequence db) (max_id (companies db)) + 1.

(** [INSERT INTO companies (...) VALUES (...)]: the columns left out take
    their declared defaults, 0 and the current time. *)
Definition insert_company (now : string) (v : fields sqltext) (db : store)
  : store :=
  let i := next_id db in
  Store (companies db ++ [Company i v 0 now])%list i.

Definition delete_all (db : store) : store :=
  Store [] (sqlite_sequence db).

Section Importer.
Context `{Platform}.

Record DataFrame := {
  columns : list label;
  data : list (list cell);
}.

(** [[col.strip() for col in df.columns.str.strip()]]: the stripped
    labels, or the exception text. *)
Fixpoint strip_columns (cols : list label) : string + list string :=
  match cols with
  | [] => inr []
  | LOther err :: _ => inl err
  | LStr s :: cols' =>
      match strip_columns cols' with
      | inl err => inl err
      | inr l => inr (str_strip (str_strip s) :: l)
      end
  end.

(** The inner loop: the first stripped header equal to the canonical
    name up to case. *)
Definition find_lower (excel_columns : list string) (excel_col : string)
  : option string :=
  List.find (λ ec, bool_decide (str_lower ec = str_lower excel_col))
    excel_columns.

(** The key under which one canonical name is entered in
    [mapped_columns], if any. *)
Definition match_header (excel_columns : list string) (excel_col : string)
  : option string :=
  if bool_decide (excel_col ∈ excel_columns) then Some excel_col
  else find_lower excel_columns excel_col.

(** One turn of the loop over [column_mapping.items()]. *)
Definition map_step (excel_columns : list string)
    (mapped_columns : gmap string string) (entry : string * string)
  : gmap string string :=
  match match_header excel_columns entry.1 with
  | Some k => <[k := entry.2]> mapped_columns
  | None => mapped_columns
  end.

Definition map_columns (excel_columns : list string) : gmap string string :=
  fold_left (map_step excel_columns) column_mapping ∅.

(** [df.rename(columns=mapped_columns)]: the frame's own labels are looked
    up, not their stripped forms. *)
Definition rename_label (mapped_columns : gmap string string) (l : label)
  : label :=
  match l with
  | LStr s => LStr (default s (mapped_columns !! s))
  | LOther err => LOther err
  end.

Definition rename (mapped_columns : gmap string string) (df : DataFrame)
  : DataFrame :=
  {| columns := rename_label mapped_columns <$> columns df;
     data := data df |}.

(** *** Rows *)

(** [row.get(key, default)] on a row of the renamed frame: the default
    when no label equals the key, the cell when one does, and a Series of
    the cells when several do. *)
Inductive got :=
| Absent
| One (c : cell)
| Many (l : list cell).

Fixpoint row_lookup (labels : list label) (values : list cell) (key : string)
  : list cell :=
  match labels, values with
  | l :: labels', v :: values' =>
      if decide (l = LStr key) then v :: row_lookup labels' values' key
      else row_lookup labels' values' key
  | _, _ => []
  end.

Definition row_get (labels : list label) (values : list cell) (key : string)
  : got :=
  match row_lookup labels values key with
  | [] => Absent
  | [c] => One c
  | l => Many l
  end.

(** An element of the insertion tuple. *)
Inductive param :=
| PStr (s : string)
| PCell (c : cell)
| PSeries (l : list cell).

(** [row.get(key, '')] *)
Definition get_or_empty (labels : list label) (values : list cell)
    (key : string) : param :=
  match row_get labels values key with
  | Absent => PStr ""
  | One c => PCell c
  | Many l => PSeries l
  end.

(** [str(row.get('serial_number', str(idx+1)))] *)
Definition get_serial (labels : list label) (values : list cell) (idx : nat)
  : param :=
  match row_get labels values "serial_number" with
  | Absent => PStr (str_of_nat (idx + 1))
  | One c => PStr (cell_str c)
  | Many l => PStr (series_str l)
  end.

Definition insert_data (labels : list label) (idx : nat) (values : list cell)
  : fields param :=
  {| serial_number := get_serial labels values idx;
     company_name := get_or_empty labels values "company_name";
     batch := get_or_empty labels values "batch";
     company_type := get_or_empty labels values "company_type";
     industry := get_or_empty labels values "industry";
     recruitment_target := get_or_empty labels values "recruitment_target";
     positions := get_or_empty labels values "positions";
     application_status := get_or_empty labels values "application_status";
     location := get_or_empty labels values "location";
     update_time := get_or_empty labels values "update_time";
     deadline := get_or_empty labels values "deadline";
     official_announcement :=
       get_or_empty labels values "official_announcement";
     application_method := get_or_empty labels values "application_method";
     referral_code := get_or_empty labels values "referral_code" |}.

(** sqlite3 binds a [str] as text and a cell by its type; a Series is
    not a supported type. *)
Definition bind_param (p : param) : option sqltext :=
  match p with
  | PStr s => Some (Text s)
  | PCell c => sql_bind c
  | PSeries _ => None
  end.

(** Binding the whole tuple: [None] when [cursor.execute] raises. *)
Definition bind_all (t : fields param) : option (fields sqltext) :=
  a1 ← bind_param (serial_number t);
  a2 ← bind_param (company_name t);
  a3 ← bind_param (batch t);
  a4 ← bind_param (company_type t);
  a5 ← bind_param (industry t);
  a6 ← bind_param (recruitment_target t);
  a7 ← bind_param (positions t);
  a8 ← bind_param (application_status t);
  a9 ← bind_param (location t);
  a10 ← bind_param (update_time t);
  a11 ← bind_param (deadline t);
  a12 ← bind_param (official_announcement t);
  a13 ← bind_param (application_method t);
  a14 ← bind_param (referral_code t);
  Some (Fields a1 a2 a3 a4 a5 a6 a7 a8 a9 a10 a11 a12 a13 a14).

(** *** The import *)

(** What the two engines make of a file: a frame, or the text of the
    exception raised. *)
Record file := {
  openpyxl : string + DataFrame;
  xlrd : string + DataFrame;
}.

Definition read_excel (f : file) : string + DataFrame :=
  match openpyxl f with
  | inr df => inr df
  | inl _ => xlrd f
  end.

(** The loop over [df.iterrows()], from row [idx] on; [clock] gives the
    time at which a row is inserted. *)
Fixpoint insert_rows (labels : list label) (clock : nat → string)
    (idx : nat) (rows : list (list cell)) (db : store) (error_count : nat)
  : store * nat :=
  match rows with
  | [] => (db, error_count)
  | row :: rows' =>
      match bind_all (insert_data labels idx row) with
      | Some v =>
          insert_rows labels clock (S idx) rows'
            (insert_company (clock idx) v db) error_count
      | None =>
          insert_rows labels clock (S idx) rows' db (S error_count)
      end
  end.

Definition load_data_to_db (fs : gmap string file) (clock : nat → string)
    (file_path : string) (db : store) : store * (bool * string) :=
  match fs !! file_path with
  | None => (db, (false, "文件不存在: " ++ file_path))
  | Some f =>
      match read_excel f with
      | inl e2 => (db, (false, "无法读取Excel文件: " ++ e2))
      | inr df =>
          match strip_columns (columns df) with
          | inl e => (db, (false, "导入失败: " ++ e))
          | inr excel_columns =>
              let df := rename (map_columns excel_columns) df in
              let '(db, error_count) :=
                insert_rows (columns df) clock 0 (data df) (delete_all db) 0
              in
              let total := str_of_nat (length (data df)) in
              if decide (0 < error_count)%nat
              then (db, (true, "导入完成，共 " ++ total ++ " 条数据，其中 "
                               ++ str_of_nat error_count
                               ++ " 条数据导入失败"))
              else (db, (true, "成功导入 " ++ total ++ " 条数据"))
          end
      end
  end.

End Importer.

(** ** Queries *)

(** [column = ?] with a text parameter: never true of NULL. *)
Definition sql_eq (stored : sqltext) (v : string) : bool :=
  match stored with
  | Text s => bool_decide (s = v)
  | Null => false
  end.

Definition id_le (a b : company) : Prop := company_id a ≤ company_id b.

#[global] Instance id_le_dec : RelDecision id_le.
Proof. intros a b. unfold id_le. apply _. Defined.

(** [... ORDER BY id] *)
Definition order_by_id (l : list company) : list company :=
  merge_sort id_le l.

(** [query_db] on a statement [SELECT * FROM companies WHERE 1=1 AND c1 = ?
    AND ... ORDER BY id]: [query] lists the columns compared, [params] the
    values bound to them. *)
Definition select_where (query : list (fields sqltext → sqltext))
    (params : list string) (db : store) : list company :=
  order_by_id
    (List.filter
       (λ c, forallb (λ qp, sql_eq (qp.1 (values c)) qp.2) (zip query params))
       (companies db)).

(** [if v and v != 'all'] on a query argument. *)
Definition constrains (v : option string) : bool :=
  match v with
  | Some s => negb (bool_decide (s = "")) && negb (bool_decide (s = "all"))
  | None => false
  end.

(** One [if ...: query += ' AND col = ?'; params.append(v)]. *)
Definition add_condition (col : fields sqltext → sqltext) (v : option string)
    (qp : list (fields sqltext → sqltext) * list string)
  : list (fields sqltext → sqltext) * list string :=
  if constrains v then ((qp.1 ++ [col])%list, (qp.2 ++ [default "" v])%list)
  else qp.

Definition api_companies (args : gmap string string) (db : store)
  : list company :=
  let industry_ := args !! "industry" in
  let company_type_ := args !! "type" in
  let location_ := args !! "location" in
  let qiyexing := args !! "qiyexing" in
  let jie := args !! "jie" in
  let qp := ([], []) in
  let qp := add_condition industry industry_ qp in
  let qp := add_condition company_type company_type_ qp in
  let qp := add_condition location location_ qp in
  let qp := add_condition recruitment_target qiyexing qp in
  let qp := add_condition deadline jie qp in
  select_where qp.1 qp.2 db.

(** The test one argument puts on the column it is compared with. *)
Definition passes (v : option string) (stored : sqltext) : bool :=
  if constrains v then sql_eq stored (default "" v) else true.

(** The five arguments of the route and the columns they are compared with. *)
Definition filter_columns : list (string * (fields sqltext → sqltext)) :=
  [ ("industry", industry);
    ("type", company_type);
    ("location", location);
    ("qiyexing", recruitment_target);
    ("jie", deadline) ].

(** A row that passes the tests of all five arguments. *)
Definition selected (args : gmap string string) (c : company) : bool :=
  passes (args !! "industry") (industry (values c))
  && passes (args !! "type") (company_type (values c))
  && passes (args !! "location") (location (values c))
  && passes (args !! "qiyexing") (recruitment_target (values c))
  && passes (args !! "jie") (deadline (values c)).

(** [SELECT * FROM companies WHERE is_suitable = 1 ORDER BY id] *)
Definition suitable_companies (db : store) : list company :=
  order_by_id (List.filter (λ c, bool_decide (is_suitable c = 1)) (companies db)).

(** ** Marking *)

(** A JSON value of the request body.  Numbers are the integral ones. *)
#[local] Unset Elimination Schemes.
Inductive json :=
| JNull
| JBool (b : bool)
| JInt (z : Z)
| JStr (s : string)
| JArr (l : list json)
| JObj (l : list (string * json)).
#[local] Set Elimination Schemes.

(** Python truth of [data.get(key)], [None] standing for a missing key. *)
Definition truthy (v : option json) : bool :=
  match v with
  | None | Some JNull => false
  | Some (JBool b) => b
  | Some (JInt z) => negb (z =? 0)
  | Some (JStr s) => negb (bool_decide (s = ""))
  | Some (JArr l) => negb (bool_decide (l = []))
  | Some (JObj l) => negb (bool_decide (l = []))
  end.

(** A parameter bound to [WHERE id = ?]. *)
Inductive sqlparam :=
| QNull
| QInt (z : Z)
| QText (s : string).

(** sqlite3 binds [None], [bool], [int] within 64 bits and [str]; lists
    and dicts, and larger integers, make [execute] raise. *)
Definition bind_json (v : option json) : option sqlparam :=
  match v with
  | None | Some JNull => Some QNull
  | Some (JBool b) => Some (QInt (if b then 1 else 0))
  | Some (JInt z) =>
      if bool_decide (- 2 ^ 63 ≤ z < 2 ^ 63) then Some (QInt z) else None
  | Some (JStr s) => Some (QText s)
  | Some (JArr _) | Some (JObj _) => None
  end.

(** What a route returns: a JSON body with status and message under an
    HTTP code, or the server error of an exception nobody caught. *)
Inductive response :=
| Reply (code : nat) (status message : string)
| ServerError.

Section Marking.
Context `{Platform}.

(** [id = ?] on a row. *)
Definition id_matches (p : sqlparam) (i : Z) : bool :=
  match p with
  | QNull => false
  | QInt z => bool_decide (i = z)
  | QText s =>
      match sql_numeric s with
      | Some z => bool_decide (i = z)
      | None => false
      end
  end.

(** [UPDATE companies SET is_suitable = ? WHERE id = ?] *)
Definition update_suitable (mark_value : Z) (p : sqlparam) (db : store)
  : store :=
  Store
    ((λ c, if id_matches p (company_id c)
           then Company (company_id c) (values c) mark_value (created_at c)
           else c) <$> companies db)
    (sqlite_sequence db).

Definition api_mark (data : gmap string json) (db : store)
  : store * response :=
  let company_id := data !! "id" in
  let suitable := data !! "suitable" in
  if negb (truthy company_id)
  then (db, Reply 200 "error" "缺少公司ID")
  else
    let mark_value := if truthy suitable then 1 else 2 in
    match bind_json company_id with
    | Some p =>
        (update_suitable mark_value p db, Reply 200 "success" "标记成功")
    | None => (db, ServerError)
    end.

End Marking.

(** ** Export *)

Definition headers : list string :=
  [ "序号"; "公司名称"; "批次"; "企业性质"; "行业大类";
    "招聘对象"; "招聘岗位"; "网申状态"; "工作地点"; "截止时间";
    "投递方式"; "内推码/备注" ].

(** The worksheet row written for one company; a NULL is an empty cell. *)
Definition export_row (c : company) : list sqltext :=
  let company := values c in
  [ serial_number company;
    company_name company;
    batch company;
    company_type company;
    industry company;
    recruitment_target company;
    positions company;
    application_status company;
    location company;
    deadline company;
    application_method company;
    referral_code company ].

(** The workbook handed to [send_file], before it is serialised. *)
Record download := {
  title : string;
  sheet : list (list sqltext);
  download_name : string;
}.

(** [today] is [datetime.now().strftime("%Y%m%d")]. *)
Definition api_export_suitable (today : string) (db : store)
  : response + download :=
  let companies := suitable_companies db in
  if bool_decide (companies = [])
  then inl (Reply 400 "error" "没有合适的公司可导出")
  else
    let ws := [Text <$> headers] in
    let ws := foldl (λ ws company, (ws ++ [export_row company])%list) ws companies in
    inr {| title := "合适的公司";
           sheet := ws;
           download_name := "合适的公司_" ++ today ++ ".xlsx" |}.

(** ** The schema manager *)

(** A value of any column. *)
Inductive sqlval :=
| VNull
| VInt (z : Z)
| VText (s : string).

(** Table [companies] as [init_db] sees it: the declared columns, name and
    type, and the rows, each holding one value per column. *)
Record table := Table {
  tcolumns : list (string * string);
  trows : list (list sqlval);
}.

Definition required_columns : list (string * string) :=
  [ ("serial_number", "TEXT");
    ("company_name", "TEXT");
    ("batch", "TEXT");
    ("company_type", "TEXT");
    ("industry", "TEXT");
    ("recruitment_target", "TEXT");
    ("positions", "TEXT");
    ("application_status", "TEXT");
    ("location", "TEXT");
    ("update_time", "TEXT");
    ("deadline", "TEXT");
    ("official_announcement", "TEXT");
    ("application_method", "TEXT");
    ("referral_code", "TEXT");
    ("is_suitable", "INTEGER DEFAULT 0");
    ("created_at", "TIMESTAMP DEFAULT CURRENT_TIMESTAMP") ].

(** The columns of the [CREATE TABLE IF NOT EXISTS] statement. *)
Definition create_columns : list (string * string) :=
  [ ("id", "INTEGER PRIMARY KEY AUTOINCREMENT");
    ("serial_number", "TEXT");
    ("company_name", "TEXT");
    ("batch", "TEXT");
    ("company_type", "TEXT");
    ("industry", "TEXT");
    ("recruitment_target", "TEXT");
    ("positions", "TEXT");
    ("application_status", "TEXT");
    ("location", "TEXT");
    ("update_time", "TEXT");
    ("deadline", "TEXT");
    ("official_announcement", "TEXT");
    ("application_method", "TEXT");
    ("referral_code", "TEXT");
    ("is_suitable", "INTEGER DEFAULT 0");
    ("created_at", "TIMESTAMP DEFAULT CURRENT_TIMESTAMP") ].

(** The value existing rows show in a column added with the given type.
    SQLite admits a [CURRENT_TIMESTAMP] default only on a table without
    rows, where nothing is filled in. *)
Definition column_default (col_type : string) : sqlval :=
  if decide (col_type = "INTEGER DEFAULT 0") then VInt 0 else VNull.

(** [ALTER TABLE companies ADD COLUMN col_name col_type], when it succeeds. *)
Definition add_column (t : table) (col_name col_type : string) : table :=
  Table (tcolumns t ++ [(col_name, col_type)])%list
        ((λ r, r ++ [column_default col_type])%list <$> trows t).

Section Schema.
(** Whether SQLite carries out an [ADD COLUMN] on the table as it stands;
    when it does not, the statement raises and [init_db] goes on. *)
Variable alter_ok : table → string → string → bool.

(** The loop over [required_columns]; [existing_columns] is read once,
    before the loop. *)
Definition heal_step (existing_columns : list string) (t : table)
    (col : string * string) : table :=
  if bool_decide (col.1 ∉ existing_columns)
  then if alter_ok t col.1 col.2 then add_column t col.1 col.2 else t
  else t.

(** The database holds table [companies] or does not. *)
Definition init_db (db : option table) : option table :=
  let db :=
    match db with
    | Some t =>
        let existing_columns := (tcolumns t).*1 in
        Some (fold_left (heal_step existing_columns) required_columns t)
    | None => None
    end in
  match db with
  | Some t => Some t
  | None => Some (Table create_columns [])
  end.

End Schema.

(** ** The application as a transition system *)

Section Lifecycle.
Context `{Platform}.

(** The operations that write to the table: an import of any file at any
    time, and a marking request with any body.  The queries and the export
    only read. *)
Inductive step : store → store → Prop :=
| step_import (fs : gmap string file) (clock : nat → string)
    (file_path : string) (db : store) :
    step db (load_data_to_db fs clock file_path db).1
| step_mark (data : gmap string json) (db : store) :
    step db (api_mark data db).1.

Definition reachable (db : store) : Prop := rtc step empty_store db.

(** The rows the insertion loop adds, the first of them under id [i]. *)
Fixpoint inserted (labels : list label) (clock : nat → string) (idx : nat)
    (rows : list (list cell)) (i : Z) : list company :=
  match rows with
  | [] => []
  | row :: rows' =>
      match bind_all (insert_data labels idx row) with
      | Some v =>
          Company i v 0 (clock idx) :: inserted labels clock (S idx) rows' (i + 1)
      | None => inserted labels clock (S idx) rows' i
      end
  end.

(** The rows the insertion loop fails on. *)
Fixpoint failures (labels : list label) (idx : nat) (rows : list (list cell))
  : nat :=
  match rows with
  | [] => 0%nat
  | row :: rows' =>
      match bind_all (insert_data labels idx row) with
      | Some _ => failures labels (S idx) rows'
      | None => S (failures labels (S idx) rows')
      end
  end.

(** The three ways in which the import gives up before touching the table. *)
Inductive file_error (fs : gmap string file) (file_path : string)
  : string → Prop :=
| missing_file :
    fs !! file_path = None →
    file_error fs file_path ("文件不存在: " ++ file_path)
| unreadable (f : file) (e e2 : string) :
    fs !! file_path = Some f →
    openpyxl f = inl e → xlrd f = inl e2 →
    file_error fs file_path ("无法读取Excel文件: " ++ e2)
| raised (f : file) (df : DataFrame) (e : string) :
    fs !! file_path = Some f →
    read_excel f = inr df →
    strip_columns (columns df) = inl e →
    file_error fs file_path ("导入失败: " ++ e).

End Lifecycle.


(** The three values of the mark. *)
Definition marked_ok (c : company) : Prop :=
  is_suitable c = 0 ∨ is_suitable c = 1 ∨ is_suitable c = 2.

(** ** The other routes and the start of the application *)

Definition get_all_companies (db : store) : list company :=
  order_by_id (companies db).

(** The value of a text column as the condition and element of a set
    comprehension: present when it is text and not empty. *)
Definition truthy_text (v : sqltext) : option string :=
  match v with
  | Text s => if decide (s = "") then None else Some s
  | Null => None
  end.

(** [list({c[col] for c in companies if c[col]})]; the order of the list is
    that of a Python set and is left out. *)
Definition choices (col : fields sqltext → sqltext) (companies : list company)
  : gset string :=
  list_to_set (omap (λ c, truthy_text (col (values c))) companies).

(** What [index] hands to the template. *)
Record page := {
  page_companies : list company;
  industries : gset string;
  company_types : gset string;
  locations : gset string;
  qiyexingz : gset string;
  jiezhi : gset string;
}.

Definition index (db : store) : page :=
  let companies := get_all_companies db in
  {| page_companies := companies;
     industries := choices industry companies;
     company_types := choices company_type companies;
     locations := choices location companies;
     qiyexingz := choices recruitment_target companies;
     jiezhi := choices deadline companies |}.

(** sqlite3 binds a Python [int] that fits 64 bits. *)
Definition bind_int (z : Z) : option sqlparam :=
  if bool_decide (- 2 ^ 63 ≤ z < 2 ^ 63) then Some (QInt z) else None.

Definition EXCEL_FILE : string := "2026届_秋招汇总表.xlsx".

Section Routes.
Context `{Platform}.

(** [query_db('SELECT * FROM companies WHERE id = ?', [id], one=True)]: the
    first row found or [None]; no answer when the binding raises. *)
Definition api_company (id : Z) (db : store) : option (option company) :=
  match bind_int id with
  | Some p =>
      Some (head (List.filter (λ c, id_matches p (company_id c)) (companies db)))
  | None => None
  end.

Definition api_suitable_companies (db : store) : list company :=
  suitable_companies db.

(** [init_db] leaves a table of the full schema as it is, so the route
    comes down to the import. *)
Definition api_reload_data (fs : gmap string file) (clock : nat → string)
    (db : store) : store * response :=
  let '(db, (success, message)) := load_data_to_db fs clock EXCEL_FILE db in
  if success then (db, Reply 200 "success" message)
  else (db, Reply 400 "error" message).

(** The start of the application, up to [app.run]: the file is loaded when
    the table holds no row and the file exists. *)
Definition initialize_app (fs : gmap string file) (clock : nat → string)
    (db : store) : store :=
  let count := length (companies db) in
  if bool_decide (count = 0%nat) && bool_decide (is_Some (fs !! EXCEL_FILE))
  then (load_data_to_db fs clock EXCEL_FILE db).1
  else db.

End Routes.

(** The ids of the rows, in the order in which the table holds them. *)
Definition ids (db : store) : list Z := company_id <$> companies db.

(** Ids grow along the table, lie above 0 and below the counter. *)
Definition store_ok (db : store) : Prop :=
  StronglySorted Z.lt (ids db)
  ∧ Forall (λ i, 0 < i ≤ sqlite_sequence db) (ids db).

(** ** A platform to run the program on

    Cells are text, integers, blanks (NaN) and times of day, which sqlite3
    cannot bind.  Strings are UTF-8 bytes; stripping and lower-casing act
    on the ASCII range, where they agree with Python on every string used
    below. *)
Module Sample.

Inductive xcell :=
| XStr (s : string)
| XInt (n : nat)
| XNaN
| XTime (repr : string).

Definition is_space (a : ascii) : bool :=
  let n := nat_of_ascii a in
  ((9 <=? n) && (n <=? 13) || (28 <=? n) && (n <=? 32))%nat.

Fixpoint lstrip (s : string) : string :=
  match s with
  | String a s' => if is_space a then lstrip s' else s
  | EmptyString => EmptyString
  end.

Fixpoint rstrip (s : string) : string :=
  match s with
  | String a s' =>
      match rstrip s' with
      | EmptyString => if is_space a then EmptyString else String a EmptyString
      | r => String a r
      end
  | EmptyString => EmptyString
  end.

Definition strip (s : string) : string := rstrip (lstrip s).

Definition lower_ascii (a : ascii) : ascii :=
  let n := nat_of_ascii a in
  if ((65 <=? n) && (n <=? 90))%nat then ascii_of_nat (n + 32) else a.

Fixpoint lower (s : string) : string :=
  match s with
  | String a s' => String (lower_ascii a) (lower s')
  | EmptyString => EmptyString
  end.

Definition xcell_str (c : xcell) : string :=
  match c with
  | XStr s => s
  | XInt n => str_of_nat n
  | XNaN => "nan"
  | XTime repr => repr
  end.

Definition xcell_bind (c : xcell) : option sqltext :=
  match c with
  | XStr s => Some (Text s)
  | XInt n => Some (Text (str_of_nat n))
  | XNaN => Some Null
  | XTime _ => None
  end.

(** Text that is a plain decimal numeral compares as that number. *)
Definition numeric (s : string) : option Z :=
  match NilEmpty.uint_of_string s with
  | Some u => if decide (s = "") then None else Some (Z.of_uint u)
  | None => None
  end.

Definition platform : Platform := {|
  cell := xcell;
  str_strip := strip;
  str_lower := lower;
  cell_str := xcell_str;
  series_str := λ l, String.concat (String (ascii_of_nat 10) "")
                                   (xcell_str <$> l);
  sql_bind := xcell_bind;
  sql_numeric := numeric;
|}.

#[local] Existing Instance platform.

(** A sheet with a header carrying a stray blank, a header in Latin
    letters, and a time of day for a company name in its second row. *)
Definition frame_a : DataFrame :=
  {| columns := [LStr "公司名称"; LStr " 工作地点"; LStr "Batch"];
     data := [ [XStr "Acme"; XStr "Shanghai"; XInt 3];
               [XTime "10:00:00"; XStr "Beijing"; XInt 4] ] |}.

(** A sheet without a serial-number column. *)
Definition frame_b : DataFrame :=
  {| columns := [LStr "公司名称"; LStr "行业大类"];
     data := [ [XStr "Core"; XStr "Tech"];
               [XStr "Dune"; XNaN];
               [XStr "Echo"; XStr "Bank"] ] |}.

Definition files : gmap string file :=
  {[ "a.xlsx" := {| openpyxl := inr frame_a; xlrd := inl "not an xls file" |};
     "b.xlsx" := {| openpyxl := inl "bad zip file"; xlrd := inr frame_b |};
     "c.xlsx" := {| openpyxl := inl "bad zip file";
                    xlrd := inl "not an xls file" |} ]}.

Definition clock (idx : nat) : string := "2026-01-01 00:00:00".

(** The file the application loads at its start, holding the second sheet. *)
Definition files_main : gmap string file :=
  {[ EXCEL_FILE := {| openpyxl := inr frame_b; xlrd := inl "not an xls file" |} ]}.

(** Two rows, as an import leaves them. *)
Definition blank (serial name : string) : fields sqltext :=
  Fields (Text serial) (Text name) (Text "") (Text "") (Text "") (Text "")
         (Text "") (Text "") (Text "") (Text "") (Text "") (Text "")
         (Text "") (Text "").

Definition blank_industry (serial name sector : string) : fields sqltext :=
  Fields (Text serial) (Text name) (Text "") (Text "") (Text sector) (Text "")
         (Text "") (Text "") (Text "") (Text "") (Text "") (Text "")
         (Text "") (Text "").

Definition blank_industry_null (serial name : string) : fields sqltext :=
  Fields (Text serial) (Text name) (Text "") (Text "") Null (Text "")
         (Text "") (Text "") (Text "") (Text "") (Text "") (Text "")
         (Text "") (Text "").

Definition db2 : store :=
  Store [ Company 1 (blank "1" "Acme") 0 "2026-01-01 00:00:00";
          Company 2 (blank "2" "Bolt") 0 "2026-01-01 00:00:00" ] 2.

(** Three rows, two of them marked suitable and stored out of id order. *)
Definition db3 : store :=
  Store [ Company 3 (blank_industry "3" "Core" "Tech") 1 "2026-01-01 00:00:00";
          Company 1 (blank_industry "1" "Acme" "Bank") 1 "2026-01-01 00:00:00";
          Company 2 (blank_industry "2" "Bolt" "Tech") 2 "2026-01-01 00:00:00" ]
        3.

End Sample.

(** * Properties *)

(** ** The insertion tuple *)

Section TupleFacts.
Context `{Platform}.

Lemma row_lookup_absent (labels : list label) (values : list cell)
    (key : string) :
  LStr key ∉ labels → row_lookup labels values key = [].
Proof.
  revert values.
  induction labels as [|l labels IH]; intros values Hnot; [done|].
  destruct values as [|v values]; [done|]. simpl.
  apply not_elem_of_cons in Hnot as [Hne Hnot].
  destruct (decide (l = LStr key)) as [->|_]; [done|].
  by apply IH.
Qed.

Lemma row_get_absent (labels : list label) (values : list cell)
    (key : string) :
  LStr key ∉ labels → row_get labels values key = Absent.
Proof. intros Hnot. unfold row_get. by rewrite row_lookup_absent. Qed.

Lemma get_or_empty_absent (labels : list label) (values : list cell)
    (key : string) :
  LStr key ∉ labels → get_or_empty labels values key = PStr "".
Proof. intros Hnot. unfold get_or_empty. by rewrite row_get_absent. Qed.

Lemma get_serial_absent (labels : list label) (values : list cell)
    (idx : nat) :
  LStr "serial_number" ∉ labels →
  get_serial labels values idx = PStr (str_of_nat (idx + 1)).
Proof. intros Hnot. unfold get_serial. by rewrite row_get_absent. Qed.

(** A field of the tuple whose column the renamed frame lacks. *)
Lemma insert_data_absent (labels : list label) (idx : nat)
    (values : list cell) (name : string) (p : param) :
  LStr name ∉ labels →
  field_get name (insert_data labels idx values) = Some p →
  p = if decide (name = "serial_number")
      then PStr (str_of_nat (idx + 1)) else PStr "".
Proof.
  intros Hnot. unfold field_get.
  repeat (case_decide;
    [subst name; simpl; intros [= <-];
     first [by apply get_serial_absent | by apply get_or_empty_absent]|]).
  done.
Qed.

(** C7: every field of the insertion tuple whose column is absent from
    the row is the empty string, except [serial_number], which is then
    the 1-based index of the row, [str(idx+1)], as a string. *)
Theorem insert_data_defaults (labels : list label) (idx : nat)
    (values : list cell) :
  (LStr "serial_number" ∉ labels →
   serial_number (insert_data labels idx values)
   = PStr (str_of_nat (idx + 1))) ∧
  (∀ name p,
     name ≠ "serial_number" →
     LStr name ∉ labels →
     field_get name (insert_data labels idx values) = Some p →
     p = PStr "").
Proof.
  split.
  - apply get_serial_absent.
  - intros name p Hname Hnot Hget.
    apply insert_data_absent in Hget; [|done].
    by destruct (decide (name = "serial_number")).
Qed.

End TupleFacts.

Lemma insert_data_defaults_witness :
  serial_number
    (@insert_data Sample.platform [LStr "company_name"] 4 [Sample.XStr "Acme"])
  = PStr "5"
  ∧ location
      (@insert_data Sample.platform [LStr "company_name"] 4 [Sample.XStr "Acme"])
    = PStr "".
Proof.
  pose proof (@insert_data_defaults Sample.platform [LStr "company_name"] 4%nat
                [Sample.XStr "Acme"]) as [Hserial Hother].
  split.
  - apply Hserial. by apply not_elem_of_cons; split; [|apply not_elem_of_nil].
  - apply (Hother "location"); [done| |reflexivity].
    by apply not_elem_of_cons; split; [|apply not_elem_of_nil].
Defined.

(** ** Marking *)

Section MarkFacts.
Context `{Platform}.

Lemma api_mark_falsy (data : gmap string json) (db : store) :
  truthy (data !! "id") = false →
  api_mark data db = (db, Reply 200 "error" "缺少公司ID").
Proof. intros Hid. unfold api_mark. by rewrite Hid. Qed.

Lemma api_mark_truthy (data : gmap string json) (db : store) (p : sqlparam) :
  truthy (data !! "id") = true →
  bind_json (data !! "id") = Some p →
  api_mark data db
  = (update_suitable (if truthy (data !! "suitable") then 1 else 2) p db,
     Reply 200 "success" "标记成功").
Proof. intros Hid Hbind. unfold api_mark. by rewrite Hid, Hbind. Qed.

Lemma update_suitable_lookup (mark_value : Z) (p : sqlparam) (db : store)
    (i : nat) (c : company) :
  companies db !! i = Some c →
  ∃ c', companies (update_suitable mark_value p db) !! i = Some c'
        ∧ company_id c' = company_id c
        ∧ values c' = values c
        ∧ created_at c' = created_at c
        ∧ is_suitable c'
          = if id_matches p (company_id c) then mark_value else is_suitable c.
Proof.
  intros Hc. unfold update_suitable. simpl.
  rewrite list_lookup_fmap, Hc. simpl.
  eexists; split; [done|].
  by destruct (id_matches p (company_id c)).
Qed.

Lemma update_suitable_no_match (mark_value : Z) (p : sqlparam) (db : store) :
  Forall (λ c, id_matches p (company_id c) = false) (companies db) →
  update_suitable mark_value p db = db.
Proof.
  intros Hall. destruct db as [l s]. unfold update_suitable.
  cbn [companies sqlite_sequence] in *.
  f_equal. induction Hall as [|c l Hc _ IH]; [done|].
  by rewrite fmap_cons, Hc, IH.
Qed.

(** C10: a falsy id, such as 0 or the empty string, is rejected like a
    missing or null one: the reply is the missing-id error and the store
    is left as it was. *)
Theorem api_mark_rejects_falsy_id (data : gmap string json) (db : store)
    (v : json) :
  data !! "id" = Some v →
  v = JInt 0 ∨ v = JStr "" ∨ v = JBool false ∨ v = JArr [] ∨ v = JObj [] →
  api_mark data db = (db, Reply 200 "error" "缺少公司ID").
Proof.
  intros Hid Hv. apply api_mark_falsy. rewrite Hid.
  by destruct Hv as [->|[->|[->|[->| ->]]]].
Qed.

(** C5, amended: the request fails with the missing-id error, the store
    unchanged, when the id is absent, null or any other falsy value;
    for a truthy id that sqlite3 can bind, the rows whose id equals it get
    suitability 1 when [suitable] is truthy and 2 otherwise, every other
    row and column stays as it was, and the reply is success, also when no
    row has that id. *)
Theorem api_mark_spec (data : gmap string json) (db : store) :
  (truthy (data !! "id") = false →
   api_mark data db = (db, Reply 200 "error" "缺少公司ID"))
  ∧ (∀ p, truthy (data !! "id") = true →
          bind_json (data !! "id") = Some p →
          let mark_value := if truthy (data !! "suitable") then 1 else 2 in
          let db' := (api_mark data db).1 in
          (api_mark data db).2 = Reply 200 "success" "标记成功"
          ∧ sqlite_sequence db' = sqlite_sequence db
          ∧ length (companies db') = length (companies db)
          ∧ (∀ i c, companies db !! i = Some c →
               ∃ c', companies db' !! i = Some c'
                     ∧ company_id c' = company_id c
                     ∧ values c' = values c
                     ∧ created_at c' = created_at c
                     ∧ is_suitable c'
                       = if id_matches p (company_id c)
                         then mark_value else is_suitable c)
          ∧ (Forall (λ c, id_matches p (company_id c) = false) (companies db)
             → db' = db))
  ∧ (∀ z i, id_matches (QInt z) i = true ↔ i = z)
  ∧ truthy (Some (JBool true)) = true
  ∧ truthy (Some (JBool false)) = false
  ∧ truthy (Some JNull) = false
  ∧ truthy None = false.
Proof.
  split; [apply api_mark_falsy|].
  split.
  - intros p Hid Hbind. cbv zeta.
    rewrite (api_mark_truthy data db p Hid Hbind). simpl.
    split; [done|]. split; [done|].
    split; [by rewrite length_fmap|].
    split.
    + intros i c Hc. by apply update_suitable_lookup.
    + apply update_suitable_no_match.
  - split; [|done].
    intros z i. simpl. apply bool_decide_eq_true.
Qed.

End MarkFacts.

Lemma api_mark_rejects_falsy_id_witness :
  @api_mark Sample.platform {[ "id" := JInt 0; "suitable" := JBool true ]}
    Sample.db2
  = (Sample.db2, Reply 200 "error" "缺少公司ID").
Proof.
  apply (@api_mark_rejects_falsy_id Sample.platform _ _ (JInt 0)).
  - reflexivity.
  - by left.
Defined.

(** C5 as stated fails: an id that is present and not null, here 0, gets
    the error reply instead of success. *)
Lemma api_mark_counterexample :
  ¬ (∀ (data : gmap string json) (db : store),
       data !! "id" ≠ None → data !! "id" ≠ Some JNull →
       (@api_mark Sample.platform data db).2 = Reply 200 "success" "标记成功").
Proof.
  intros Hclaim.
  specialize (Hclaim {[ "id" := JInt 0; "suitable" := JBool true ]}
                Sample.db2).
  discriminate Hclaim; done.
Qed.

Lemma api_mark_spec_witness :
  (@api_mark Sample.platform {[ "id" := JInt 2; "suitable" := JBool true ]}
     Sample.db2).2
  = Reply 200 "success" "标记成功"
  ∧ is_suitable <$> companies
      (@api_mark Sample.platform {[ "id" := JInt 2; "suitable" := JBool true ]}
         Sample.db2).1
    = [0; 1].
Proof.
  pose proof (@api_mark_spec Sample.platform
                {[ "id" := JInt 2; "suitable" := JBool true ]} Sample.db2)
    as (_ & Hupdate & _).
  destruct (Hupdate (QInt 2)) as (Hreply & _); [reflexivity|reflexivity|].
  split; [exact Hreply|reflexivity].
Defined.

(** ** The insertion loop *)

Lemma max_id_app (l : list company) (c : company) :
  max_id (l ++ [c])%list = Z.max (max_id l) (Z.max (company_id c) 0).
Proof.
  induction l as [|d l IH]; simpl; [lia|].
  rewrite IH. lia.
Qed.

Lemma max_id_nonneg (l : list company) : 0 ≤ max_id l.
Proof. induction l as [|d l IH]; simpl; lia. Qed.

Lemma max_id_bound (l : list company) (c : company) :
  c ∈ l → company_id c ≤ max_id l.
Proof.
  induction l as [|d l IH]; intros Hin; [by apply elem_of_nil in Hin|].
  apply elem_of_cons in Hin as [->|Hin]; simpl; [lia|].
  specialize (IH Hin). lia.
Qed.

Lemma next_id_positive (db : store) : 0 < next_id db.
Proof. unfold next_id. pose proof (max_id_nonneg (companies db)). lia. Qed.

Lemma next_id_insert (now : string) (v : fields sqltext) (db : store) :
  next_id (insert_company now v db) = next_id db + 1.
Proof.
  pose proof (next_id_positive db) as Hpos.
  unfold insert_company. cbv zeta.
  unfold next_id at 1. cbn [companies sqlite_sequence].
  rewrite max_id_app. cbn [company_id].
  unfold next_id in *. lia.
Qed.


Section LoopFacts.
Context `{Platform}.

(** The loop, as the rows it appends and the failures it counts. *)
Lemma insert_rows_spec (labels : list label) (clock : nat → string)
    (rows : list (list cell)) :
  ∀ (idx : nat) (db : store) (error_count : nat),
    let new := inserted labels clock idx rows (next_id db) in
    insert_rows labels clock idx rows db error_count
    = (Store (companies db ++ new)%list
             (if decide (new = []) then sqlite_sequence db
              else next_id db + Z.of_nat (length new) - 1),
       (error_count + failures labels idx rows)%nat).
Proof.
  induction rows as [|row rows IH]; intros idx db error_count; cbv zeta.
  - simpl. rewrite app_nil_r, Nat.add_0_r. by destruct db.
  - simpl. destruct (bind_all (insert_data labels idx row)) as [v|].
    + rewrite IH. cbv zeta. rewrite next_id_insert.
      unfold insert_company at 1 2. cbn [companies sqlite_sequence].
      rewrite <- app_assoc. simpl. f_equal. f_equal.
      destruct (decide (inserted labels clock (S idx) rows (next_id db + 1) = []))
        as [->|_]; simpl length; lia.
    + rewrite IH. cbv zeta. f_equal. lia.
Qed.

Lemma inserted_unmarked (labels : list label) (clock : nat → string)
    (rows : list (list cell)) :
  ∀ (idx : nat) (i : Z),
    Forall (λ c, is_suitable c = 0) (inserted labels clock idx rows i).
Proof.
  induction rows as [|row rows IH]; intros idx i; simpl; [done|].
  destruct (bind_all (insert_data labels idx row)); [|done].
  by constructor.
Qed.


Lemma inserted_length (labels : list label) (clock : nat → string)
    (rows : list (list cell)) :
  ∀ (idx : nat) (i : Z),
    (length (inserted labels clock idx rows i) + failures labels idx rows
     = length rows)%nat.
Proof.
  induction rows as [|row rows IH]; intros idx i; simpl; [done|].
  destruct (bind_all (insert_data labels idx row)); simpl;
    [rewrite IH|rewrite Nat.add_succ_r, IH]; done.
Qed.

End LoopFacts.

(** ** The import *)

Section ImportFacts.
Context `{Platform}.

Lemma load_failure (fs : gmap string file) (clock : nat → string)
    (file_path : string) (db : store) (message : string) :
  file_error fs file_path message →
  load_data_to_db fs clock file_path db = (db, (false, message)).
Proof.
  intros [Hmiss|f e e2 Hf Ho Hx|f df e Hf Hread Hstrip]; unfold load_data_to_db.
  - by rewrite Hmiss.
  - rewrite Hf. unfold read_excel. by rewrite Ho, Hx.
  - by rewrite Hf, Hread, Hstrip.
Qed.

Lemma load_success (fs : gmap string file) (clock : nat → string)
    (file_path : string) (db : store) (f : file) (df : DataFrame)
    (excel_columns : list string) :
  fs !! file_path = Some f →
  read_excel f = inr df →
  strip_columns (columns df) = inr excel_columns →
  let labels := columns (rename (map_columns excel_columns) df) in
  let first := next_id (delete_all db) in
  let new := inserted labels clock 0 (data df) first in
  let failed := failures labels 0 (data df) in
  let total := str_of_nat (length (data df)) in
  load_data_to_db fs clock file_path db
  = (Store new (if decide (new = []) then sqlite_sequence db
                else first + Z.of_nat (length new) - 1),
     (true,
      if decide (0 < failed)%nat
      then "导入完成，共 " ++ total ++ " 条数据，其中 "
           ++ str_of_nat failed ++ " 条数据导入失败"
      else "成功导入 " ++ total ++ " 条数据")).
Proof.
  intros Hf Hread Hstrip. cbv zeta. unfold load_data_to_db.
  rewrite Hf, Hread, Hstrip. cbn [data rename].
  rewrite insert_rows_spec. cbv zeta. cbn [companies delete_all sqlite_sequence].
  rewrite Nat.add_0_l, app_nil_l.
  by destruct (decide (0 < _)%nat).
Qed.

(** Every call either gives up on the file or goes through the table. *)
Lemma load_cases (fs : gmap string file) (file_path : string) :
  (∃ message, file_error fs file_path message)
  ∨ (∃ f df excel_columns,
       fs !! file_path = Some f ∧ read_excel f = inr df
       ∧ strip_columns (columns df) = inr excel_columns).
Proof.
  destruct (fs !! file_path) as [f|] eqn:Hf; [|left; eexists; by constructor].
  destruct (read_excel f) as [e2|df] eqn:Hread.
  - left. unfold read_excel in Hread.
    destruct (openpyxl f) as [e|] eqn:Ho; [|done].
    eexists. by eapply unreadable.
  - destruct (strip_columns (columns df)) as [e|excel_columns] eqn:Hstrip.
    + left. eexists. by eapply raised.
    + right. by exists f, df, excel_columns.
Qed.

End ImportFacts.

Section ImportResult.
Context `{Platform}.


End ImportResult.

(** ** The suitability mark *)

Section Suitability.
Context `{Platform}.

Lemma load_marked_ok (fs : gmap string file) (clock : nat → string)
    (file_path : string) (db : store) :
  Forall marked_ok (companies db) →
  Forall marked_ok (companies (load_data_to_db fs clock file_path db).1).
Proof.
  intros Hdb.
  destruct (load_cases fs file_path)
    as [[message Herr]|(f & df & excel_columns & Hf & Hread & Hstrip)].
  - by rewrite (load_failure _ _ _ _ _ Herr).
  - rewrite (load_success _ _ _ _ _ _ _ Hf Hread Hstrip). cbv zeta. simpl.
    eapply Forall_impl; [apply inserted_unmarked|].
    intros c Hc. by left.
Qed.

Lemma update_marked_ok (mark_value : Z) (p : sqlparam) (db : store) :
  mark_value = 1 ∨ mark_value = 2 →
  Forall marked_ok (companies db) →
  Forall marked_ok (companies (update_suitable mark_value p db)).
Proof.
  intros Hmark Hdb. unfold update_suitable. cbn [companies].
  apply Forall_fmap. eapply Forall_impl; [exact Hdb|].
  intros c Hc. simpl. destruct (id_matches p (company_id c)); [|done].
  unfold marked_ok. simpl. tauto.
Qed.

Lemma mark_marked_ok (data : gmap string json) (db : store) :
  Forall marked_ok (companies db) →
  Forall marked_ok (companies (api_mark data db).1).
Proof.
  intros Hdb. unfold api_mark.
  destruct (truthy (data !! "id")); simpl; [|done].
  destruct (bind_json (data !! "id")); simpl; [|done].
  apply update_marked_ok; [|done].
  destruct (truthy (data !! "suitable")); tauto.
Qed.

Lemma step_marked_ok (db db' : store) :
  step db db' →
  Forall marked_ok (companies db) → Forall marked_ok (companies db').
Proof.
  intros [fs clock file_path db0|data db0].
  - apply load_marked_ok.
  - apply mark_marked_ok.
Qed.

(** C9: in every store reached from the empty one by imports and marking
    requests, the suitability of every row is 0, 1 or 2. *)
Theorem suitability_invariant (db : store) :
  reachable db →
  Forall (λ c, is_suitable c = 0 ∨ is_suitable c = 1 ∨ is_suitable c = 2)
    (companies db).
Proof.
  unfold reachable. intros Hreach.
  change (Forall marked_ok (companies db)).
  revert db Hreach.
  apply (rtc_ind_r (λ db, Forall marked_ok (companies db))).
  - constructor.
  - intros db db' _ Hstep IH. by eapply step_marked_ok.
Qed.

End Suitability.

Lemma suitability_invariant_witness :
  Forall (λ c, is_suitable c = 0 ∨ is_suitable c = 1 ∨ is_suitable c = 2)
    (companies
       (@api_mark Sample.platform {[ "id" := JInt 2; "suitable" := JBool true ]}
          (@load_data_to_db Sample.platform Sample.files Sample.clock "b.xlsx"
             empty_store).1).1).
Proof.
  apply (@suitability_invariant Sample.platform).
  eapply rtc_r; [apply rtc_once, (@step_import Sample.platform)|].
  apply (@step_mark Sample.platform).
Defined.

(** ** Reimport *)

Section Reimport.
Context `{Platform}.





End Reimport.


(** ** Queries *)

Lemma id_le_total : Total id_le.
Proof. intros a b. unfold id_le. lia. Qed.

Lemma id_le_trans : Transitive id_le.
Proof. intros a b c. unfold id_le. lia. Qed.

Lemma order_by_id_sorted (l : list company) :
  StronglySorted id_le (order_by_id l).
Proof.
  apply StronglySorted_merge_sort.
  - apply id_le_trans.
  - apply id_le_total.
Qed.

Lemma order_by_id_perm (l : list company) : order_by_id l ≡ₚ l.
Proof. apply merge_sort_Permutation. Qed.

Lemma elem_of_order_by_id (l : list company) (c : company) :
  c ∈ order_by_id l ↔ c ∈ l.
Proof. by rewrite order_by_id_perm. Qed.

Lemma suitable_companies_elem (db : store) (c : company) :
  c ∈ suitable_companies db ↔ c ∈ companies db ∧ is_suitable c = 1.
Proof.
  unfold suitable_companies.
  rewrite elem_of_order_by_id, list_elem_of_In, filter_In, <- list_elem_of_In.
  by rewrite bool_decide_eq_true.
Qed.

Lemma suitable_companies_nil (db : store) :
  suitable_companies db = [] ↔ Forall (λ c, is_suitable c ≠ 1) (companies db).
Proof.
  rewrite Forall_forall. split.
  - intros Hnil c Hc Hone.
    assert (c ∈ suitable_companies db) as Hin
      by by apply suitable_companies_elem.
    rewrite Hnil in Hin. by apply elem_of_nil in Hin.
  - intros Hall. destruct (suitable_companies db) as [|c l] eqn:Heq; [done|].
    assert (c ∈ suitable_companies db) as Hin by (rewrite Heq; left).
    apply suitable_companies_elem in Hin as [Hc Hone].
    by destruct (Hall c Hc).
Qed.

(** ** Export *)

Lemma export_sheet (ws : list (list sqltext)) (l : list company) :
  foldl (λ ws company, (ws ++ [export_row company])%list) ws l
  = (ws ++ (export_row <$> l))%list.
Proof.
  revert ws. induction l as [|c l IH]; intros ws; simpl.
  - by rewrite app_nil_r.
  - rewrite IH, <- app_assoc. done.
Qed.

(** The export fails with the nothing-to-export error, under
    code 400, when no row has suitability 1; otherwise the sheet has one
    more row than there are suitable rows: the header of the 12 canonical
    names, the mapping table without [update_time] and
    [official_announcement], in the order of the table, and then one row
    of those 12 columns for each suitable row, by ascending id. *)
Theorem api_export_suitable_spec (today : string) (db : store) :
  (Forall (λ c, is_suitable c ≠ 1) (companies db) →
   api_export_suitable today db = inl (Reply 400 "error" "没有合适的公司可导出"))
  ∧ (Exists (λ c, is_suitable c = 1) (companies db) →
     ∃ d, api_export_suitable today db = inr d
          ∧ sheet d
            = (Text <$> headers) :: (export_row <$> suitable_companies db)
          ∧ length (sheet d) = S (length (suitable_companies db))
          ∧ Forall (λ row, length row = 12%nat) (sheet d))
  ∧ StronglySorted id_le (suitable_companies db)
  ∧ suitable_companies db
    ≡ₚ List.filter (λ c, bool_decide (is_suitable c = 1)) (companies db)
  ∧ headers
    = (List.filter
         (λ entry, negb (bool_decide
            (entry.2 ∈ ["update_time"; "official_announcement"])))
         column_mapping).*1
  ∧ length headers = 12%nat.
Proof.
  split; [|split; [|split; [|split; [|split]]]].
  - intros Hnone. apply suitable_companies_nil in Hnone.
    unfold api_export_suitable. by rewrite Hnone.
  - intros Hsome. unfold api_export_suitable.
    destruct (bool_decide (suitable_companies db = [])) eqn:Hnil.
    + apply bool_decide_eq_true, suitable_companies_nil in Hnil.
      apply Exists_exists in Hsome as (c & Hc & Hone).
      rewrite Forall_forall in Hnil. by destruct (Hnil c Hc).
    + eexists. split; [done|]. cbn [sheet].
      rewrite export_sheet. simpl.
      split; [done|]. split; [by rewrite length_fmap|].
      constructor; [done|]. apply Forall_fmap, Forall_true. done.
  - apply order_by_id_sorted.
  - apply order_by_id_perm.
  - reflexivity.
  - reflexivity.
Qed.

Lemma api_export_suitable_spec_witness :
  api_export_suitable "20260101" Sample.db2
  = inl (Reply 400 "error" "没有合适的公司可导出")
  ∧ ∃ d, api_export_suitable "20260101" Sample.db3 = inr d
         ∧ length (sheet d) = 3%nat.
Proof.
  destruct (api_export_suitable_spec "20260101" Sample.db2) as (Hnone & _).
  destruct (api_export_suitable_spec "20260101" Sample.db3) as (_ & Hsome & _).
  split.
  - apply Hnone. by repeat constructor.
  - destruct Hsome as (d & Hd & _ & Hlen & _).
    + apply Exists_cons_hd. reflexivity.
    + exists d. split; [exact Hd|exact Hlen].
Defined.

(** ** The filter query *)

Lemma constrains_spec (v : option string) :
  constrains v = true ↔ ∃ s, v = Some s ∧ s ≠ "" ∧ s ≠ "all".
Proof.
  unfold constrains. destruct v as [s|].
  - rewrite andb_true_iff, !negb_true_iff, !bool_decide_eq_false.
    split; [intros [? ?]; eauto|].
    by intros (s' & [= <-] & ? & ?).
  - split; [done|]. by intros (s & ? & _).
Qed.

Lemma sql_eq_spec (stored : sqltext) (v : string) :
  sql_eq stored v = true ↔ stored = Text v.
Proof.
  destruct stored as [|s]; simpl; [done|].
  rewrite bool_decide_eq_true. split; [by intros ->|by intros [= ->]].
Qed.

Lemma passes_spec (v : option string) (stored : sqltext) :
  passes v stored = true
  ↔ ∀ s, v = Some s → s ≠ "" → s ≠ "all" → stored = Text s.
Proof.
  unfold passes. destruct (constrains v) eqn:Hc.
  - apply constrains_spec in Hc as (s & -> & Hne & Hall). simpl.
    rewrite sql_eq_spec. split; [by intros -> s' [= <-]|].
    intros Hs. by apply Hs.
  - split; [|done]. intros _ s -> Hne Hall.
    assert (constrains (Some s) = true) as Hc'
      by (apply constrains_spec; eauto).
    congruence.
Qed.

(** The statement the route builds selects the rows that pass the five
    tests. *)
Lemma api_companies_filter (args : gmap string string) (db : store) :
  api_companies args db
  = order_by_id (List.filter (selected args) (companies db)).
Proof.
  unfold api_companies, select_where, selected, passes, add_condition.
  f_equal. apply filter_ext. intros c.
  destruct (constrains (args !! "industry"));
    destruct (constrains (args !! "type"));
    destruct (constrains (args !! "location"));
    destruct (constrains (args !! "qiyexing"));
    destruct (constrains (args !! "jie"));
    simpl; rewrite ?andb_true_r, ?andb_assoc; reflexivity.
Qed.

(** The rows returned are the stored rows that agree with every argument
    that is given, not empty and not ["all"], each once, by ascending id;
    an argument that is missing, empty or ["all"] excludes nothing. *)
Theorem api_companies_spec (args : gmap string string) (db : store) :
  (∀ c, c ∈ api_companies args db
        ↔ c ∈ companies db
          ∧ ∀ key col, (key, col) ∈ filter_columns →
              ∀ s, args !! key = Some s → s ≠ "" → s ≠ "all" →
                   col (values c) = Text s)
  ∧ StronglySorted id_le (api_companies args db)
  ∧ api_companies args db ≡ₚ List.filter (selected args) (companies db).
Proof.
  rewrite api_companies_filter.
  split; [|split; [apply order_by_id_sorted|apply order_by_id_perm]].
  intros c.
  rewrite elem_of_order_by_id, list_elem_of_In, filter_In, <- list_elem_of_In.
  apply and_iff_compat_l. unfold selected.
  rewrite !andb_true_iff, !passes_spec. split.
  - intros ((((H1 & H2) & H3) & H4) & H5) key col Hin.
    unfold filter_columns in Hin.
    repeat (apply elem_of_cons in Hin as [[= -> ->]|Hin]; [done|]).
    by apply elem_of_nil in Hin.
  - intros Hall.
    repeat split; apply Hall; unfold filter_columns;
      repeat first [by left | right].
Qed.

(** ** Ids *)

Lemma sorted_ids_inj (l : list company) (x y : company) :
  StronglySorted Z.lt (company_id <$> l) →
  x ∈ l → y ∈ l → company_id x = company_id y → x = y.
Proof.
  induction l as [|c l IH]; intros Hs Hx Hy Heq; [by apply elem_of_nil in Hx|].
  rewrite fmap_cons in Hs. apply StronglySorted_cons in Hs as [Hc Hs].
  rewrite Forall_fmap, Forall_forall in Hc.
  apply elem_of_cons in Hx as [->|Hx]; apply elem_of_cons in Hy as [->|Hy].
  - done.
  - specialize (Hc y Hy). simpl in Hc. lia.
  - specialize (Hc x Hx). simpl in Hc. lia.
  - by apply IH.
Qed.

Lemma sorted_ids_le (l : list company) :
  StronglySorted Z.lt (company_id <$> l) → StronglySorted id_le l.
Proof.
  induction l as [|c l IH]; intros Hs; [constructor|].
  rewrite fmap_cons in Hs. apply StronglySorted_cons in Hs as [Hc Hs].
  constructor; [by apply IH|].
  rewrite Forall_fmap in Hc. eapply Forall_impl; [exact Hc|].
  intros d Hd. unfold id_le. simpl in Hd. lia.
Qed.

(** Rows that already stand by ascending id are returned as they stand. *)
Lemma order_by_id_sorted_ids (l : list company) :
  StronglySorted Z.lt (company_id <$> l) → order_by_id l = l.
Proof.
  intros Hs.
  apply (StronglySorted_unique_strong id_le).
  - intros x y Hx Hy Hxy Hyx. unfold id_le in *.
    apply (sorted_ids_inj l); [done| |done|lia].
    by rewrite <- (order_by_id_perm l).
  - apply order_by_id_sorted.
  - by apply sorted_ids_le.
  - apply order_by_id_perm.
Qed.

Lemma sorted_ids_filter (f : company → bool) (l : list company) :
  StronglySorted Z.lt (company_id <$> l) →
  StronglySorted Z.lt (company_id <$> List.filter f l).
Proof.
  induction l as [|c l IH]; intros Hs; [constructor|].
  rewrite fmap_cons in Hs. apply StronglySorted_cons in Hs as [Hc Hs].
  simpl. destruct (f c); [|by apply IH].
  rewrite fmap_cons. apply StronglySorted_cons. split; [|by apply IH].
  rewrite Forall_fmap, Forall_forall in *.
  intros d Hd. apply Hc.
  apply list_elem_of_In, filter_In in Hd as [Hd _]. by apply list_elem_of_In.
Qed.

Section IdFacts.
Context `{Platform}.

Lemma inserted_sorted (labels : list label) (clock : nat → string)
    (rows : list (list cell)) :
  ∀ (idx : nat) (i : Z),
    StronglySorted Z.lt (company_id <$> inserted labels clock idx rows i)
    ∧ Forall (λ j, i ≤ j < i + Z.of_nat (length (inserted labels clock idx rows i)))
        (company_id <$> inserted labels clock idx rows i).
Proof.
  induction rows as [|row rows IH]; intros idx i; simpl.
  { split; constructor. }
  destruct (bind_all (insert_data labels idx row)) as [v|]; [|apply IH].
  destruct (IH (S idx) (i + 1)) as [Hs Hb].
  rewrite fmap_cons. cbn [company_id length]. split.
  - apply StronglySorted_cons. split; [|done].
    eapply Forall_impl; [exact Hb|]. intros j Hj. simpl in Hj. lia.
  - constructor; [lia|].
    eapply Forall_impl; [exact Hb|]. intros j Hj. simpl in Hj. lia.
Qed.

Lemma load_store_ok (fs : gmap string file) (clock : nat → string)
    (file_path : string) (db : store) :
  store_ok db → store_ok (load_data_to_db fs clock file_path db).1.
Proof.
  intros Hdb.
  destruct (load_cases fs file_path)
    as [[message Herr]|(f & df & excel_columns & Hf & Hread & Hstrip)].
  - by rewrite (load_failure _ _ _ _ _ Herr).
  - rewrite (load_success _ _ _ _ _ _ _ Hf Hread Hstrip). cbv zeta.
    unfold store_ok, ids. cbn [fst companies sqlite_sequence].
    destruct (inserted_sorted
                (columns (rename (map_columns excel_columns) df)) clock
                (data df) 0%nat (next_id (delete_all db))) as [Hs Hb].
    split; [done|].
    pose proof (next_id_positive (delete_all db)) as Hpos.
    destruct (decide (inserted _ _ _ _ _ = [])) as [->|Hne]; [constructor|].
    eapply Forall_impl; [exact Hb|]. intros j Hj. cbv beta iota in *. lia.
Qed.

Lemma update_suitable_ids (mark_value : Z) (p : sqlparam) (db : store) :
  ids (update_suitable mark_value p db) = ids db.
Proof.
  unfold ids, update_suitable. cbn [companies].
  rewrite <- list_fmap_compose. apply list_fmap_ext.
  intros i c _. simpl. by destruct (id_matches p (company_id c)).
Qed.

Lemma api_mark_ids (data : gmap string json) (db : store) :
  ids (api_mark data db).1 = ids db
  ∧ sqlite_sequence (api_mark data db).1 = sqlite_sequence db.
Proof.
  unfold api_mark.
  destruct (truthy (data !! "id")); simpl; [|done].
  destruct (bind_json (data !! "id")); simpl; [|done].
  by rewrite update_suitable_ids.
Qed.

Lemma step_store_ok (db db' : store) : step db db' → store_ok db → store_ok db'.
Proof.
  intros [fs clock file_path db0|data db0].
  - apply load_store_ok.
  - unfold store_ok. destruct (api_mark_ids data db0) as [-> ->]. done.
Qed.

(** In every store reached from the empty one, ids are positive, differ
    from row to row and grow in the order of insertion, and none exceeds
    the AUTOINCREMENT counter. *)
Theorem reachable_ids (db : store) :
  reachable db →
  StronglySorted Z.lt (ids db)
  ∧ NoDup (ids db)
  ∧ Forall (λ i, 0 < i ≤ sqlite_sequence db) (ids db).
Proof.
  intros Hreach.
  assert (store_ok db) as [Hs Hb].
  { revert db Hreach. apply (rtc_ind_r store_ok).
    - split; constructor.
    - intros db db' _ Hstep IH. by eapply step_store_ok. }
  split; [done|]. split; [|done].
  clear Hb. induction Hs as [|i l Hs IH Hi]; constructor; [|done].
  intros Hin. rewrite Forall_forall in Hi. specialize (Hi i Hin). lia.
Qed.

(** On such a store the listing of all companies is the table as it
    stands, and the filter query is the plain filter of the table. *)
Theorem reachable_listing (args : gmap string string) (db : store) :
  reachable db →
  get_all_companies db = companies db
  ∧ api_companies args db = List.filter (selected args) (companies db)
  ∧ suitable_companies db
    = List.filter (λ c, bool_decide (is_suitable c = 1)) (companies db).
Proof.
  intros [Hs _]%reachable_ids. unfold ids in Hs.
  split; [by apply order_by_id_sorted_ids|].
  split.
  - rewrite api_companies_filter.
    by apply order_by_id_sorted_ids, sorted_ids_filter.
  - by apply order_by_id_sorted_ids, sorted_ids_filter.
Qed.

End IdFacts.

Lemma reachable_sample :
  @reachable Sample.platform
    (@api_mark Sample.platform {[ "id" := JInt 2; "suitable" := JBool true ]}
       (@load_data_to_db Sample.platform Sample.files Sample.clock "b.xlsx"
          empty_store).1).1.
Proof.
  eapply rtc_r; [apply rtc_once, (@step_import Sample.platform)|].
  apply (@step_mark Sample.platform).
Defined.

Lemma reachable_ids_witness :
  NoDup
    (ids (@api_mark Sample.platform
            {[ "id" := JInt 2; "suitable" := JBool true ]}
            (@load_data_to_db Sample.platform Sample.files Sample.clock
               "b.xlsx" empty_store).1).1).
Proof.
  apply (@reachable_ids Sample.platform _ reachable_sample).
Defined.

Lemma reachable_listing_witness :
  @api_companies
    {[ "industry" := "Tech" ]}
    (@api_mark Sample.platform {[ "id" := JInt 2; "suitable" := JBool true ]}
       (@load_data_to_db Sample.platform Sample.files Sample.clock "b.xlsx"
          empty_store).1).1
  = [Company 1 (Sample.blank_industry "1" "Core" "Tech") 0
       "2026-01-01 00:00:00"].
Proof.
  destruct (@reachable_listing Sample.platform {[ "industry" := "Tech" ]} _
              reachable_sample) as (_ & -> & _).
  reflexivity.
Defined.

(** ** The choices offered on the page *)

Lemma truthy_text_spec (v : sqltext) (s : string) :
  truthy_text v = Some s ↔ v = Text s ∧ s ≠ "".
Proof.
  destruct v as [|t]; simpl.
  - split; [done|]. by intros [? _].
  - destruct (decide (t = "")) as [->|Hne].
    + split; [done|]. by intros [[= <-] ?].
    + split; [by intros [= <-]|]. by intros [[= <-] _].
Qed.

Lemma choices_spec (col : fields sqltext → sqltext) (l : list company)
    (s : string) :
  s ∈ choices col l ↔ s ≠ "" ∧ ∃ c, c ∈ l ∧ col (values c) = Text s.
Proof.
  unfold choices. rewrite elem_of_list_to_set, list_elem_of_omap. split.
  - intros (c & Hc & [Hs Hne]%truthy_text_spec). eauto.
  - intros (Hne & c & Hc & Hs). exists c. split; [done|].
    by apply truthy_text_spec.
Qed.

Lemma choices_all (col : fields sqltext → sqltext) (db : store) (s : string) :
  s ∈ choices col (order_by_id (companies db))
  ↔ s ≠ "" ∧ ∃ c, c ∈ companies db ∧ col (values c) = Text s.
Proof.
  rewrite choices_spec. apply and_iff_compat_l.
  split; intros (c & Hc & Hcol); exists c; split; try done;
    by apply elem_of_order_by_id.
Qed.

(** The page lists the companies by ascending id and offers, for each of
    the five filters, the values that some stored row holds in that
    column, leaving out NULL and the empty string. *)
Theorem index_spec (db : store) :
  page_companies (index db) = get_all_companies db
  ∧ (∀ s, s ∈ industries (index db)
          ↔ s ≠ "" ∧ ∃ c, c ∈ companies db ∧ industry (values c) = Text s)
  ∧ (∀ s, s ∈ company_types (index db)
          ↔ s ≠ "" ∧ ∃ c, c ∈ companies db ∧ company_type (values c) = Text s)
  ∧ (∀ s, s ∈ locations (index db)
          ↔ s ≠ "" ∧ ∃ c, c ∈ companies db ∧ location (values c) = Text s)
  ∧ (∀ s, s ∈ qiyexingz (index db)
          ↔ s ≠ "" ∧ ∃ c, c ∈ companies db
                          ∧ recruitment_target (values c) = Text s)
  ∧ (∀ s, s ∈ jiezhi (index db)
          ↔ s ≠ "" ∧ ∃ c, c ∈ companies db ∧ deadline (values c) = Text s).
Proof.
  unfold index, get_all_companies. cbn [page_companies industries
    company_types locations qiyexingz jiezhi].
  split; [done|].
  repeat (split; [intros s; apply choices_all|]).
  intros s; apply choices_all.
Qed.

Lemma filter_columns_key (key : string)
    (col col' : fields sqltext → sqltext) :
  (key, col) ∈ filter_columns → (key, col') ∈ filter_columns → col = col'.
Proof.
  unfold filter_columns. rewrite !elem_of_cons, !elem_of_nil.
  intros Hin Hin'.
  destruct Hin as [Hin|[Hin|[Hin|[Hin|[Hin|[]]]]]];
    destruct Hin' as [Hin'|[Hin'|[Hin'|[Hin'|[Hin'|[]]]]]];
    by simplify_eq.
Qed.

(** A value offered for a filter, other than ["all"], selects exactly the
    rows that hold it in the column of that filter, and there is such a
    row. *)
Theorem choice_selects (db : store) (key : string)
    (col : fields sqltext → sqltext) (s : string) :
  (key, col) ∈ filter_columns →
  s ∈ choices col (get_all_companies db) →
  s ≠ "all" →
  api_companies {[ key := s ]} db ≠ []
  ∧ ∀ c, c ∈ api_companies {[ key := s ]} db
         ↔ c ∈ companies db ∧ col (values c) = Text s.
Proof.
  intros Hkey Hs Hall. unfold get_all_companies in Hs.
  apply choices_all in Hs as (Hne & c0 & Hc0 & Hcol0).
  destruct (api_companies_spec {[ key := s ]} db) as (Hmem & _).
  assert (Hiff : ∀ c, c ∈ api_companies {[ key := s ]} db
                      ↔ c ∈ companies db ∧ col (values c) = Text s).
  { intros c. rewrite Hmem. apply and_iff_compat_l. split.
    - intros Hc. apply (Hc key col Hkey s); [|done..].
      apply lookup_singleton_eq.
    - intros Hcol key' col' Hkey' s' Hlook _ _.
      apply lookup_singleton_Some in Hlook as [<- <-].
      by rewrite <- (filter_columns_key key col col'). }
  split; [|done].
  intros Hnil. assert (c0 ∈ api_companies {[ key := s ]} db) as Hin
    by (apply Hiff; split; assumption).
  rewrite Hnil in Hin. by apply elem_of_nil in Hin.
Qed.

(** Arguments that are all missing, empty or ["all"] select every row. *)
Theorem api_companies_unconstrained (args : gmap string string) (db : store) :
  (∀ key s, args !! key = Some s → s = "" ∨ s = "all") →
  api_companies args db = get_all_companies db.
Proof.
  intros Hargs. rewrite api_companies_filter. unfold get_all_companies.
  assert (Hsel : ∀ c, selected args c = true).
  { intros c. unfold selected. rewrite !andb_true_iff, !passes_spec.
    repeat split; intros s Hs Hne Hall; by destruct (Hargs _ _ Hs). }
  f_equal. induction (companies db) as [|c l IH]; simpl; [done|].
  by rewrite Hsel, IH.
Qed.

Lemma choice_selects_witness :
  api_companies {[ "industry" := "Tech" ]} Sample.db3 ≠ [].
Proof.
  apply (choice_selects Sample.db3 "industry" industry "Tech").
  - by left.
  - apply choices_all. split; [done|].
    exists (Company 3 (Sample.blank_industry "3" "Core" "Tech") 1
              "2026-01-01 00:00:00").
    split; [by left|done].
  - done.
Defined.

Lemma api_companies_unconstrained_witness :
  api_companies {[ "industry" := "all"; "type" := "" ]} Sample.db3
  = get_all_companies Sample.db3.
Proof.
  apply api_companies_unconstrained.
  intros key s Hs.
  apply lookup_insert_Some in Hs as [[_ <-]|[_ Hs]]; [by right|].
  apply lookup_singleton_Some in Hs as [_ <-]. by left.
Defined.

(** ** One company, and marking it *)

Lemma head_filter_sorted (l : list company) (c : company) :
  StronglySorted Z.lt (company_id <$> l) →
  c ∈ l →
  head (List.filter (λ d, bool_decide (company_id d = company_id c)) l)
  = Some c.
Proof.
  intros Hs Hc.
  destruct (List.filter _ l) as [|d k] eqn:Hf.
  - assert (In c (List.filter
              (λ d, bool_decide (company_id d = company_id c)) l)) as Hin.
    { apply filter_In. split; [by apply list_elem_of_In|].
      by apply bool_decide_eq_true. }
    rewrite Hf in Hin. destruct Hin.
  - assert (In d (List.filter
              (λ d, bool_decide (company_id d = company_id c)) l)) as Hin
      by (rewrite Hf; by left).
    apply filter_In in Hin as [Hd Heq%bool_decide_eq_true].
    simpl. f_equal. apply (sorted_ids_inj l); [done| |done|done].
    by apply list_elem_of_In.
Qed.

Lemma filter_none (l : list company) (z : Z) :
  Forall (λ c, company_id c ≠ z) l →
  List.filter (λ d, bool_decide (company_id d = z)) l = [].
Proof.
  induction 1 as [|c l Hc _ IH]; simpl; [done|].
  by rewrite bool_decide_eq_false_2.
Qed.

Section CompanyFacts.
Context `{Platform}.

(** On a store reached from the empty one, an id that fits 64 bits finds
    the one row that carries it, and nothing when no row does; a larger
    id gets no answer. *)
Theorem api_company_spec (id : Z) (db : store) :
  reachable db →
  (- 2 ^ 63 ≤ id < 2 ^ 63 →
   (∀ c, c ∈ companies db → company_id c = id →
         api_company id db = Some (Some c))
   ∧ (Forall (λ c, company_id c ≠ id) (companies db) →
      api_company id db = Some None))
  ∧ (¬ (- 2 ^ 63 ≤ id < 2 ^ 63) → api_company id db = None).
Proof.
  intros [Hs _]%reachable_ids. unfold ids in Hs.
  unfold api_company, bind_int. split.
  - intros Hfit. rewrite bool_decide_eq_true_2 by done. simpl. split.
    + intros c Hc <-. f_equal. by apply head_filter_sorted.
    + intros Hnone. by rewrite filter_none.
  - intros Hbig. by rewrite bool_decide_eq_false_2.
Qed.

(** Marking a stored row and then fetching it shows the row with its new
    mark, 1 for a truthy [suitable] and 2 otherwise, and nothing else
    changed. *)
Theorem mark_then_get (data : gmap string json) (db : store) (c : company) :
  reachable db →
  c ∈ companies db →
  company_id c < 2 ^ 63 →
  data !! "id" = Some (JInt (company_id c)) →
  (api_mark data db).2 = Reply 200 "success" "标记成功"
  ∧ api_company (company_id c) (api_mark data db).1
    = Some (Some (Company (company_id c) (values c)
                    (if truthy (data !! "suitable") then 1 else 2)
                    (created_at c))).
Proof.
  intros Hreach Hc Hfit Hid.
  destruct (reachable_ids db Hreach) as (Hs & _ & Hb).
  assert (0 < company_id c) as Hpos.
  { rewrite Forall_forall in Hb. apply Hb. unfold ids.
    apply list_elem_of_fmap. eauto. }
  assert (truthy (data !! "id") = true) as Htrue.
  { rewrite Hid. simpl. apply negb_true_iff, Z.eqb_neq. lia. }
  assert (bind_json (data !! "id") = Some (QInt (company_id c))) as Hbind.
  { rewrite Hid. simpl. rewrite bool_decide_eq_true_2; [done|lia]. }
  rewrite (api_mark_truthy data db _ Htrue Hbind). simpl. split; [done|].
  unfold api_company, bind_int. rewrite bool_decide_eq_true_2 by lia.
  f_equal. set (m := if truthy (data !! "suitable") then 1 else 2).
  apply (head_filter_sorted _ (Company (company_id c) (values c) m (created_at c))).
  - fold (ids (update_suitable m (QInt (company_id c)) db)).
    by rewrite update_suitable_ids.
  - unfold update_suitable. cbn [companies].
    apply list_elem_of_fmap. exists c. split; [|done].
    simpl. by rewrite bool_decide_eq_true_2.
Qed.

Lemma update_suitable_twice (m1 m2 : Z) (p : sqlparam) (db : store) :
  update_suitable m2 p (update_suitable m1 p db) = update_suitable m2 p db.
Proof.
  unfold update_suitable. cbn [companies sqlite_sequence]. f_equal.
  rewrite <- list_fmap_compose. apply list_fmap_ext.
  intros i c _. simpl.
  destruct (id_matches p (company_id c)) eqn:Hm; simpl; by rewrite Hm.
Qed.

(** Of two marking requests for the same id the second decides: the store
    and the reply are those of the second request alone.  Repeating a
    request changes nothing. *)
Theorem api_mark_last_wins (data1 data2 : gmap string json) (db : store) :
  data1 !! "id" = data2 !! "id" →
  api_mark data2 (api_mark data1 db).1 = api_mark data2 db.
Proof.
  intros Hid. unfold api_mark. rewrite Hid.
  destruct (truthy (data2 !! "id")); simpl; [|done].
  destruct (bind_json (data2 !! "id")); simpl; [|done].
  by rewrite update_suitable_twice.
Qed.

Lemma selected_update (args : gmap string string) (m : Z) (p : sqlparam)
    (l : list company) :
  List.filter (selected args)
    ((λ c, if id_matches p (company_id c)
           then Company (company_id c) (values c) m (created_at c)
           else c) <$> l)
  = (λ c, if id_matches p (company_id c)
          then Company (company_id c) (values c) m (created_at c)
          else c) <$> List.filter (selected args) l.
Proof.
  induction l as [|c l IH]; [done|].
  rewrite fmap_cons. simpl.
  assert (selected args
            (if id_matches p (company_id c)
             then Company (company_id c) (values c) m (created_at c) else c)
          = selected args c) as ->
    by by destruct (id_matches p (company_id c)).
  destruct (selected args c); [rewrite fmap_cons|]; by rewrite IH.
Qed.

(** A marking request never changes which rows a filter query returns,
    nor their order, their ids or their text columns. *)
Theorem api_mark_keeps_filter (data : gmap string json)
    (args : gmap string string) (db : store) :
  reachable db →
  company_id <$> api_companies args (api_mark data db).1
  = company_id <$> api_companies args db
  ∧ values <$> api_companies args (api_mark data db).1
    = values <$> api_companies args db.
Proof.
  intros Hreach.
  assert (reachable (api_mark data db).1) as Hreach'
    by (eapply rtc_r; [exact Hreach|apply step_mark]).
  destruct (reachable_listing args _ Hreach) as (_ & -> & _).
  destruct (reachable_listing args _ Hreach') as (_ & -> & _).
  unfold api_mark.
  destruct (truthy (data !! "id")); simpl; [|done].
  destruct (bind_json (data !! "id")) as [p|]; simpl; [|done].
  rewrite selected_update, <- !list_fmap_compose.
  split; apply list_fmap_ext; intros i c _; simpl;
    by destruct (id_matches p (company_id c)).
Qed.

End CompanyFacts.

Lemma api_company_spec_witness :
  @api_company Sample.platform 2
    (@load_data_to_db Sample.platform Sample.files Sample.clock "b.xlsx"
       empty_store).1
  = Some (Some (Company 2 (Sample.blank_industry_null "2" "Dune") 0
                  "2026-01-01 00:00:00")).
Proof.
  eapply (@api_company_spec Sample.platform).
  - apply rtc_once, (@step_import Sample.platform).
  - done.
  - by apply list_elem_of_lookup_2 with 1%nat.
  - reflexivity.
Defined.

Lemma mark_then_get_witness :
  @api_company Sample.platform 2
    (@api_mark Sample.platform {[ "id" := JInt 2; "suitable" := JBool true ]}
       (@load_data_to_db Sample.platform Sample.files Sample.clock "b.xlsx"
          empty_store).1).1
  = Some (Some (Company 2 (Sample.blank_industry_null "2" "Dune") 1
                  "2026-01-01 00:00:00")).
Proof.
  destruct (@mark_then_get Sample.platform
              {[ "id" := JInt 2; "suitable" := JBool true ]}
              (@load_data_to_db Sample.platform Sample.files Sample.clock
                 "b.xlsx" empty_store).1
              (Company 2 (Sample.blank_industry_null "2" "Dune") 0
                 "2026-01-01 00:00:00")) as [_ Hget].
  - apply rtc_once, (@step_import Sample.platform).
  - by apply list_elem_of_lookup_2 with 1%nat.
  - done.
  - reflexivity.
  - exact Hget.
Defined.

Lemma api_mark_last_wins_witness :
  @api_mark Sample.platform {[ "id" := JInt 2; "suitable" := JBool false ]}
    (@api_mark Sample.platform {[ "id" := JInt 2; "suitable" := JBool true ]}
       Sample.db2).1
  = @api_mark Sample.platform {[ "id" := JInt 2; "suitable" := JBool false ]}
      Sample.db2.
Proof. by apply (@api_mark_last_wins Sample.platform). Defined.

Lemma api_mark_keeps_filter_witness :
  company_id <$> api_companies {[ "industry" := "Tech" ]}
    (@api_mark Sample.platform {[ "id" := JInt 1; "suitable" := JBool true ]}
       (@load_data_to_db Sample.platform Sample.files Sample.clock "b.xlsx"
          empty_store).1).1
  = company_id <$> api_companies {[ "industry" := "Tech" ]}
      (@load_data_to_db Sample.platform Sample.files Sample.clock "b.xlsx"
         empty_store).1.
Proof.
  apply (@api_mark_keeps_filter Sample.platform).
  apply rtc_once, (@step_import Sample.platform).
Defined.

(** ** More on the import *)

Section ImportMore.
Context `{Platform}.

(** An import that returns [False] leaves the table as it was. *)
Theorem load_failed_unchanged (fs : gmap string file) (clock : nat → string)
    (file_path : string) (db : store) :
  (load_data_to_db fs clock file_path db).2.1 = false →
  (load_data_to_db fs clock file_path db).1 = db.
Proof.
  destruct (load_cases fs file_path)
    as [[message Herr]|(f & df & excel_columns & Hf & Hread & Hstrip)].
  - by rewrite (load_failure _ _ _ _ _ Herr).
  - by rewrite (load_success _ _ _ _ _ _ _ Hf Hread Hstrip).
Qed.

(** An import that returns [True] leaves every row unmarked, whatever
    marks the table held before, so that an export right after it finds
    nothing to export. *)
Theorem load_resets_marks (fs : gmap string file) (clock : nat → string)
    (file_path today : string) (db : store) :
  (load_data_to_db fs clock file_path db).2.1 = true →
  let db' := (load_data_to_db fs clock file_path db).1 in
  Forall (λ c, is_suitable c = 0) (companies db')
  ∧ suitable_companies db' = []
  ∧ api_export_suitable today db'
    = inl (Reply 400 "error" "没有合适的公司可导出").
Proof.
  intros Hok db'.
  assert (Forall (λ c, is_suitable c = 0) (companies db')) as Hzero.
  { unfold db'. destruct (load_cases fs file_path)
      as [[message Herr]|(f & df & excel_columns & Hf & Hread & Hstrip)].
    - by rewrite (load_failure _ _ _ _ _ Herr) in Hok.
    - rewrite (load_success _ _ _ _ _ _ _ Hf Hread Hstrip). cbv zeta.
      apply inserted_unmarked. }
  assert (Forall (λ c, is_suitable c ≠ 1) (companies db')) as Hnone.
  { eapply Forall_impl; [exact Hzero|]. intros c Hc. rewrite Hc. done. }
  split; [done|]. split.
  - by apply suitable_companies_nil.
  - by apply api_export_suitable_spec.
Qed.

Lemma inserted_values (labels : list label) (clock : nat → string)
    (rows : list (list cell)) :
  ∀ (idx : nat) (i : Z),
    values <$> inserted labels clock idx rows i
    = omap (λ ir, bind_all (insert_data labels ir.1 ir.2))
        (imap (λ k row, ((idx + k)%nat, row)) rows).
Proof.
  induction rows as [|row rows IH]; intros idx i; [done|].
  simpl. rewrite Nat.add_0_r.
  assert (imap ((λ k row', ((idx + k)%nat, row')) ∘ S) rows
          = imap (λ k row', ((S idx + k)%nat, row')) rows) as ->.
  { apply imap_ext. intros k row' _. simpl. f_equal. lia. }
  destruct (bind_all (insert_data labels idx row)) as [v|].
  - rewrite fmap_cons. simpl. by rewrite IH.
  - by rewrite IH.
Qed.

Lemma inserted_clock (labels : list label) (clock clock' : nat → string)
    (rows : list (list cell)) :
  ∀ (idx : nat) (i i' : Z),
    length (inserted labels clock idx rows i)
    = length (inserted labels clock' idx rows i').
Proof.
  intros idx i i'.
  pose proof (inserted_length labels clock rows idx i).
  pose proof (inserted_length labels clock' rows idx i'). lia.
Qed.

(** A successful import stores, in the order of the sheet, the tuples of
    the rows that sqlite3 could bind, and only those; the rows it failed
    on make up the rest of the sheet. *)
Theorem load_rows (fs : gmap string file) (clock : nat → string)
    (file_path : string) (db : store) (f : file) (df : DataFrame)
    (excel_columns : list string) :
  fs !! file_path = Some f →
  read_excel f = inr df →
  strip_columns (columns df) = inr excel_columns →
  let labels := columns (rename (map_columns excel_columns) df) in
  let db' := (load_data_to_db fs clock file_path db).1 in
  values <$> companies db'
  = omap (λ ir, bind_all (insert_data labels ir.1 ir.2))
      (imap (λ idx row, (idx, row)) (data df))
  ∧ (length (companies db') + failures labels 0 (data df)
     = length (data df))%nat.
Proof.
  intros Hf Hread Hstrip labels db'. unfold db'.
  rewrite (load_success _ _ _ _ _ _ _ Hf Hread Hstrip). cbv zeta.
  cbn [fst companies]. fold labels. split.
  - apply inserted_values.
  - apply inserted_length.
Qed.

(** ** The start of the application and the reload route *)

(** A table that holds rows is left alone when the application starts, and
    starting a second time leaves what the first start left. *)
Theorem initialize_app_spec (fs : gmap string file) (clock clock' : nat → string)
    (db : store) :
  (companies db ≠ [] → initialize_app fs clock db = db)
  ∧ initialize_app fs clock' (initialize_app fs clock db)
    = initialize_app fs clock db.
Proof.
  assert (Hkeep : ∀ c d, companies d ≠ [] → initialize_app fs c d = d).
  { intros c d Hd. unfold initialize_app.
    rewrite (bool_decide_eq_false_2 (length (companies d) = 0%nat)); [done|].
    by destruct (companies d). }
  split; [apply Hkeep|].
  destruct (decide (companies (initialize_app fs clock db) = []))
    as [Hnil|Hne]; [|by apply Hkeep].
  assert (Hload : companies (load_data_to_db fs clock EXCEL_FILE db).1 = [] →
                  (load_data_to_db fs clock' EXCEL_FILE
                     (load_data_to_db fs clock EXCEL_FILE db).1).1
                  = (load_data_to_db fs clock EXCEL_FILE db).1).
  { destruct (load_cases fs EXCEL_FILE)
      as [[message Herr]|(f & df & excel_columns & Hf & Hread & Hstrip)].
    - rewrite (load_failure fs clock _ db _ Herr). cbn [fst]. intros _.
      by rewrite (load_failure fs clock' _ db _ Herr).
    - rewrite (load_success fs clock _ db _ _ _ Hf Hread Hstrip). cbv zeta.
      cbn [fst companies]. intros Hnew. rewrite Hnew.
      rewrite decide_True by done.
      rewrite (load_success fs clock' _ _ _ _ _ Hf Hread Hstrip). cbv zeta.
      cbn [fst sqlite_sequence].
      set (labels := columns (rename (map_columns excel_columns) df)) in *.
      set (db1 := {| companies := []; sqlite_sequence := sqlite_sequence db |}).
      pose proof (inserted_clock labels clock clock' (data df) 0%nat
                    (next_id (delete_all db)) (next_id (delete_all db1)))
        as Hlen.
      rewrite Hnew in Hlen. symmetry in Hlen. apply nil_length_inv in Hlen.
      rewrite Hlen. by rewrite decide_True by done. }
  destruct (bool_decide (length (companies db) = 0%nat)
            && bool_decide (is_Some (fs !! EXCEL_FILE))) eqn:Hcond.
  - assert (initialize_app fs clock db
            = (load_data_to_db fs clock EXCEL_FILE db).1) as E
      by (unfold initialize_app; by rewrite Hcond).
    rewrite E in Hnil |- *. unfold initialize_app.
    rewrite Hnil. cbn [length]. rewrite bool_decide_eq_true_2 by done.
    apply andb_true_iff in Hcond as [_ Hfile]. rewrite Hfile. cbn [andb].
    by apply Hload.
  - assert (initialize_app fs clock db = db) as E
      by (unfold initialize_app; by rewrite Hcond).
    rewrite E. unfold initialize_app. by rewrite Hcond.
Qed.

(** The reload route answers with code 400 and the message of the import
    when the import gives up on the file, leaving the table as it was, and
    with code 200 and the summary otherwise. *)
Theorem api_reload_data_spec (fs : gmap string file) (clock : nat → string)
    (db : store) :
  (∀ message, file_error fs EXCEL_FILE message →
     api_reload_data fs clock db = (db, Reply 400 "error" message))
  ∧ ((¬ ∃ message, file_error fs EXCEL_FILE message) →
     ∃ message,
       api_reload_data fs clock db
       = ((load_data_to_db fs clock EXCEL_FILE db).1,
          Reply 200 "success" message)
       ∧ (load_data_to_db fs clock EXCEL_FILE db).2 = (true, message)).
Proof.
  unfold api_reload_data. split.
  - intros message Herr. by rewrite (load_failure _ _ _ _ _ Herr).
  - intros Hno.
    destruct (load_cases fs EXCEL_FILE)
      as [Herr|(f & df & excel_columns & Hf & Hread & Hstrip)]; [done|].
    rewrite (load_success _ _ _ _ _ _ _ Hf Hread Hstrip). cbv zeta.
    eexists. split; reflexivity.
Qed.

End ImportMore.

Lemma load_failed_unchanged_witness :
  (@load_data_to_db Sample.platform Sample.files Sample.clock "c.xlsx"
     Sample.db3).1 = Sample.db3.
Proof. by apply (@load_failed_unchanged Sample.platform). Defined.

Lemma load_resets_marks_witness :
  api_export_suitable "20260101"
    (@load_data_to_db Sample.platform Sample.files Sample.clock "b.xlsx"
       Sample.db3).1
  = inl (Reply 400 "error" "没有合适的公司可导出").
Proof.
  destruct (@load_resets_marks Sample.platform Sample.files Sample.clock
              "b.xlsx" "20260101" Sample.db3) as (_ & _ & Hexport).
  - reflexivity.
  - exact Hexport.
Defined.

Lemma load_rows_witness :
  (length (companies
             (@load_data_to_db Sample.platform Sample.files Sample.clock
                "a.xlsx" Sample.db2).1)
   + 1 = 2)%nat.
Proof.
  destruct (@load_rows Sample.platform Sample.files Sample.clock "a.xlsx"
              Sample.db2
              {| openpyxl := inr Sample.frame_a;
                 xlrd := inl "not an xls file" |}
              Sample.frame_a ["公司名称"; "工作地点"; "Batch"])
    as [_ Hlen]; [reflexivity..|].
  exact Hlen.
Defined.

Lemma initialize_app_spec_witness :
  @initialize_app Sample.platform Sample.files_main Sample.clock Sample.db3
  = Sample.db3.
Proof.
  by apply (proj1 (@initialize_app_spec Sample.platform Sample.files_main
                     Sample.clock Sample.clock Sample.db3)).
Defined.

Lemma api_reload_data_spec_witness :
  @api_reload_data Sample.platform Sample.files Sample.clock Sample.db3
  = (Sample.db3, Reply 400 "error" ("文件不存在: " ++ EXCEL_FILE)).
Proof.
  apply (@api_reload_data_spec Sample.platform).
  by apply (@missing_file Sample.platform).
Defined.
